(** * media-utils: constraint negotiation and capability probes

    A shallow embedding of [src/media-utils.ts].  The module reads three
    ambient objects ([window], [browserama], the [RTCPeerConnection]
    constructor); they are gathered in a [Platform] record that every
    function takes as its first argument.  The module-level variable
    [_hasTransceiverFunctionality] and the calls made to the host are
    threaded through a small state-and-exception monad. *)

From stdpp Require Import gmap strings list fin_maps.
From Stdlib Require Import ZArith.

Set Warnings "-register-all".
Local Open Scope Z_scope.
Local Open Scope string_scope.

(** ** JavaScript values *)

Module Js.

(** The fragment of JavaScript values that constraint objects are built
    from.  An object is a finite map from property names to values, so
    two objects with the same properties are equal whatever the order
    in which the properties were written.  [Fun] is a host function,
    known by its name only.  The only numbers the module handles are
    screen dimensions and a frame-rate cap, so [Num] carries an integer. *)
Inductive Val : Type :=
  | Undefined
  | Null
  | Bool (b : bool)
  | Num (n : Z)
  | Str (s : string)
  | Fun (name : string)
  | Obj (fields : gmap string Val).

(** [o.k]; reading a missing property gives [undefined]. *)
Definition get_prop (o : Val) (k : string) : Val :=
  match o with
  | Obj fields => default Undefined (fields !! k)
  | _ => Undefined
  end.

(** [o.k = v] on an object. *)
Definition set_prop (o : Val) (k : string) (v : Val) : Val :=
  match o with
  | Obj fields => Obj (<[k := v]> fields)
  | _ => o
  end.

(** ToBoolean, the conversion behind [if (x)], [!x] and [!!x]. *)
Definition truthy (v : Val) : bool :=
  match v with
  | Undefined | Null => false
  | Bool b => b
  | Num n => negb (Z.eqb n 0)
  | Str s => negb (String.eqb s "")
  | Fun _ | Obj _ => true
  end.

(** What a [throw] carries. *)
Inductive Exn : Type :=
  | TypeError
  | ReferenceError
  | Thrown (v : Val).

(** The outcome of evaluating an expression: a value, or a throw. *)
Inductive Completion (A : Type) : Type :=
  | Normal (a : A)
  | Abrupt (e : Exn).
Arguments Normal {A} a.
Arguments Abrupt {A} e.

End Js.

Import Js.

(** An optional boolean property ([video?: boolean]) read in a condition. *)
Definition truthy_opt (o : option bool) : bool := default false o.

(** ** The host platform

    Everything the module reads from its surroundings.  The source
    declares [window.navigator.mediaDevices] as always present and only
    [getDisplayMedia] as optional, yet [hasGetDisplayMedia] tests all three
    links of the chain, so all three may be missing here. *)

(** [navigator.mediaDevices]: [getUserMedia] is part of [MediaDevices];
    [getDisplayMedia] is the optional property of the declaration, a
    function when it is there. *)
Record MediaDevices : Type := {
  getDisplayMedia : option string
}.

Record Navigator : Type := {
  mediaDevices : option MediaDevices
}.

Record Screen : Type := {
  width : Z;
  height : Z
}.

(** The object built by [new RTCPeerConnection()]; reading its
    [getTransceivers] property gives a value, or throws when the property
    is an accessor that does. *)
Record PeerConnection : Type := {
  getTransceivers : Completion Val
}.

Record Platform : Type := {
  (** [browserama.isChromeOrChromium] *)
  isChromeOrChromium : bool;
  (** [window.navigator] *)
  navigator : option Navigator;
  (** [window.screen] *)
  screen : Screen;
  (** what [new RTCPeerConnection()] evaluates to: the new object, or a
      throw (a [ReferenceError] where the constructor does not exist) *)
  RTCPeerConnection : Completion PeerConnection
}.

(** The window conforms to the declaration at the top of the source file:
    [navigator] and [navigator.mediaDevices] are there. *)
Definition declared_window (p : Platform) : Prop :=
  ∃ nav md, navigator p = Some nav ∧ mediaDevices nav = Some md.

Definition declared_windowb (p : Platform) : bool :=
  match navigator p with
  | Some nav => bool_decide (is_Some (mediaDevices nav))
  | None => false
  end.

(** ** Constraint negotiation *)

(** [!!(window.navigator && window.navigator.mediaDevices
        && window.navigator.mediaDevices.getDisplayMedia)] *)
Definition hasGetDisplayMedia (p : Platform) : bool :=
  match navigator p with
  | None => false
  | Some nav =>
      match mediaDevices nav with
      | None => false
      | Some md =>
          match getDisplayMedia md with
          | None => false
          | Some f => truthy (Fun f)
          end
      end
  end.

Definition getScreenShareConstraints (p : Platform) : Val :=
  if isChromeOrChromium p then
    if hasGetDisplayMedia p then
      Obj {[ "audio" := Bool false; "video" := Bool true ]}
    else
      Obj {[ "audio" := Bool false;
             "video" := Obj {[ "mandatory" :=
               Obj {[ "chromeMediaSource" := Str "desktop";
                      "maxWidth" := Num (width (screen p));
                      "maxHeight" := Num (height (screen p));
                      "maxFrameRate" := Num 15 ]} ]} ]}
  else
    Obj {[ "audio" := Bool false;
           "video" := Obj {[ "mediaSource" := Str "window" ]} ]}.

Definition getVideoConstraints (p : Platform) (cameraOnly : bool) : Val :=
  let constraints := Obj {[ "video" := Obj ∅; "audio" := Obj ∅ ]} in
  let constraints :=
    if isChromeOrChromium p then
      let constraints :=
        set_prop constraints "video"
          (set_prop (get_prop constraints "video") "googNoiseReduction" (Bool true)) in
      set_prop constraints "audio"
        (Obj {[ "googAudioMirroring" := Bool false;
                "autoGainControl" := Bool true;
                "echoCancellation" := Bool true;
                "noiseSuppression" := Bool true;
                "googDucking" := Bool false;
                "googHighpassFilter" := Bool true ]})
    else constraints in
  let constraints :=
    if cameraOnly then set_prop constraints "audio" (Bool false)
    else constraints in
  constraints.

(** ** Module state and host calls *)

(** The two capture primitives of [navigator.mediaDevices]. *)
Inductive Primitive : Type :=
  | GetUserMedia
  | GetDisplayMedia.

(** What the module does that can be seen from outside, in order: a
    helper of the module invoked by an entry point, a peer connection
    constructed, a capture primitive called with a constraint object. *)
Inductive Event : Type :=
  | Invoked (helper : string)
  | Constructed
  | Requested (prim : Primitive) (constraints : Val).

Record World : Type := {
  (** [export let _hasTransceiverFunctionality: boolean | null = null] *)
  _hasTransceiverFunctionality : option bool;
  (** the events so far, oldest first *)
  journal : list Event
}.

Definition initial : World :=
  {| _hasTransceiverFunctionality := None; journal := [] |}.

(** A computation reads and writes the world and ends with a value or a
    throw; what it did before throwing stays done. *)
Definition M (A : Type) : Type := World → Completion A * World.

#[global] Instance M_ret : MRet M := λ A a w, (Normal a, w).

#[global] Instance M_bind : MBind M := λ A B k m w,
  match m w with
  | (Normal a, w') => k a w'
  | (Abrupt e, w') => (Abrupt e, w')
  end.

Definition throw {A : Type} (e : Exn) : M A := λ w, (Abrupt e, w).

(** [try { body } catch (err) { handler }] *)
Definition try_catch {A : Type} (body : M A) (handler : Exn → M A) : M A :=
  λ w,
    match body w with
    | (Normal a, w') => (Normal a, w')
    | (Abrupt e, w') => handler e w'
    end.

(** Turning the completion of a host expression into a computation. *)
Definition eval {A : Type} (c : Completion A) : M A := λ w, (c, w).

(** The world with the events [es] appended to its journal. *)
Definition recording (es : list Event) (w : World) : World :=
  {| _hasTransceiverFunctionality := _hasTransceiverFunctionality w;
     journal := journal w ++ es |}.

Definition emit (e : Event) : M unit := λ w, (Normal (), recording [e] w).

Definition read_flag : M (option bool) := λ w,
  (Normal (_hasTransceiverFunctionality w), w).

Definition write_flag (v : option bool) : M unit := λ w,
  (Normal (),
   {| _hasTransceiverFunctionality := v; journal := journal w |}).

(** A call of a helper of this module by an entry point: the call is
    recorded, the helper's result returned. *)
Definition call {A : Type} (helper : string) (result : A) : M A :=
  emit (Invoked helper);; mret result.

(** A pending [Promise<MediaStream>]: which primitive was asked, and
    with which constraints.  How it settles is the host's business. *)
Record Promise : Type := {
  primitive : Primitive;
  requested : Val
}.

(** [window.navigator.mediaDevices.getUserMedia(constraints)] *)
Definition getUserMedia (p : Platform) (constraints : Val) : M Promise :=
  match navigator p with
  | None => throw TypeError
  | Some nav =>
      match mediaDevices nav with
      | None => throw TypeError
      | Some _ =>
          emit (Requested GetUserMedia constraints);;
          mret {| primitive := GetUserMedia; requested := constraints |}
      end
  end.

(** [window.navigator.mediaDevices.getDisplayMedia(constraints)] *)
Definition getDisplayMedia_call (p : Platform) (constraints : Val) : M Promise :=
  match navigator p with
  | None => throw TypeError
  | Some nav =>
      match mediaDevices nav with
      | None => throw TypeError
      | Some md =>
          match getDisplayMedia md with
          | None => throw TypeError
          | Some _ =>
              emit (Requested GetDisplayMedia constraints);;
              mret {| primitive := GetDisplayMedia; requested := constraints |}
          end
      end
  end.

(** ** Acquisition entry points *)

Definition startDisplayMedia (p : Platform) : M Promise :=
  constraints ← call "getScreenShareConstraints" (getScreenShareConstraints p);
  available ← (call "hasGetDisplayMedia" (hasGetDisplayMedia p) : M bool);
  if available : bool then getDisplayMedia_call p constraints
  else getUserMedia p constraints.

(** The argument of [startMedia]: [{ video?: boolean, audio?: boolean }]. *)
Record MediaOpts : Type := {
  video : option bool;
  audio : option bool
}.

(** [startMedia(opts = { video: true, audio: true })]; [None] is the call
    without an argument. *)
Definition startMedia (p : Platform) (arg : option MediaOpts) : M Promise :=
  let opts := default {| video := Some true; audio := Some true |} arg in
  constraints ←
    (if truthy_opt (video opts)
     then call "getVideoConstraints"
            (getVideoConstraints p (negb (truthy_opt (audio opts))))
     else mret (Obj {[ "audio" := Bool true ]}));
  getUserMedia p constraints.

(** ** Capability probes *)

(** [new RTCPeerConnection()] gives an object on this platform: the
    constructor is there and does not throw. *)
Definition constructible (p : Platform) : bool :=
  match RTCPeerConnection p with
  | Normal _ => true
  | Abrupt _ => false
  end.

(** What [new RTCPeerConnection()] adds to the journal: a peer connection
    is recorded when one has been built, and only then. *)
Definition built (p : Platform) : list Event :=
  if constructible p then [Constructed] else [].

(** [new RTCPeerConnection()]: where the constructor is missing or throws,
    no peer connection is built and the throw goes on. *)
Definition new_RTCPeerConnection (p : Platform) : M PeerConnection :=
  match RTCPeerConnection p with
  | Normal pc => emit Constructed;; mret pc
  | Abrupt e => throw e
  end.

(** The function returns the variable itself, of type [boolean | null]. *)
Definition checkHasTransceiverFunctionality (p : Platform) : M (option bool) :=
  cached ← read_flag;
  match cached with
  | Some b => mret (Some b)
  | None =>
      try_catch
        (dummyRtcPeerConnection ← new_RTCPeerConnection p;
         f ← eval (getTransceivers dummyRtcPeerConnection);
         write_flag (Some (truthy f)))
        (λ err, write_flag (Some false));;
      read_flag
  end.

(** A track, as far as this module looks at it. *)
Record MediaStreamTrack : Type := {
  readyState : string
}.

Record MediaStream : Type := {
  getTracks : list MediaStreamTrack
}.

Definition checkAllTracksHaveEnded (stream : MediaStream) : bool :=
  fold_left
    (λ allTracksHaveEnded t,
       String.eqb (readyState t) "ended" && allTracksHaveEnded)
    (getTracks stream) true.

Definition createNewStreamWithTrack (track : MediaStreamTrack) : MediaStream :=
  {| getTracks := [track] |}.

(** ** Sessions

    A client of the module calls its entry points one after another, each
    time on the platform as it is at that moment.  The DOM helpers
    ([createAudioMediaElement], [attachAudioMedia]) neither read nor write
    the module variable and call no capture primitive; they work on the
    page, which comes after. *)

Inductive Op : Type :=
  | StartDisplayMedia
  | StartMedia (arg : option MediaOpts)
  | CheckHasTransceiverFunctionality.

Inductive Answer : Type :=
  | Stream (pending : Promise)
  | Capability (flag : option bool).

Definition perform (p : Platform) (op : Op) : M Answer :=
  match op with
  | StartDisplayMedia => pending ← startDisplayMedia p; mret (Stream pending)
  | StartMedia arg => pending ← startMedia p arg; mret (Stream pending)
  | CheckHasTransceiverFunctionality =>
      flag ← checkHasTransceiverFunctionality p; mret (Capability flag)
  end.

(** A throw ends the call that made it, not the session. *)
Fixpoint run (calls : list (Platform * Op)) (w : World)
  : list (Completion Answer) * World :=
  match calls with
  | [] => ([], w)
  | (p, op) :: rest =>
      let '(r, w1) := perform p op w in
      let '(rs, w2) := run rest w1 in
      (r :: rs, w2)
  end.

Definition is_Constructed (e : Event) : bool :=
  match e with Constructed => true | _ => false end.

(** How many peer connections have been constructed so far. *)
Definition probes (w : World) : nat :=
  length (filter (λ e, is_Constructed e = true) (journal w)).

(** The events a computation adds to the journal of [w]. *)
Definition events_of {A : Type} (m : M A) (w : World) : list Event :=
  drop (length (journal w)) (journal (m w).2).

(** A capture request whose constraints switch audio on. *)
Definition asks_for_audio (e : Event) : bool :=
  match e with
  | Requested _ constraints => truthy (get_prop constraints "audio")
  | _ => false
  end.

(** The probe throws, at construction or at the property read. *)
Definition probe_throws (p : Platform) : Prop :=
  match RTCPeerConnection p with
  | Abrupt _ => True
  | Normal pc =>
      match getTransceivers pc with
      | Abrupt _ => True
      | Normal _ => False
      end
  end.

(** ** Platforms used as examples *)

Definition chromium_with_picker : Platform :=
  {| isChromeOrChromium := true;
     navigator :=
       Some {| mediaDevices :=
                 Some {| getDisplayMedia := Some "getDisplayMedia" |} |};
     screen := {| width := 1920; height := 1080 |};
     RTCPeerConnection :=
       Normal {| getTransceivers := Normal (Fun "getTransceivers") |} |}.

Definition chromium_legacy : Platform :=
  {| isChromeOrChromium := true;
     navigator := Some {| mediaDevices := Some {| getDisplayMedia := None |} |};
     screen := {| width := 1280; height := 720 |};
     RTCPeerConnection := Normal {| getTransceivers := Normal Undefined |} |}.

Definition gecko : Platform :=
  {| isChromeOrChromium := false;
     navigator := Some {| mediaDevices := Some {| getDisplayMedia := None |} |};
     screen := {| width := 1440; height := 900 |};
     RTCPeerConnection := Abrupt ReferenceError |}.

Definition headless : Platform :=
  {| isChromeOrChromium := false;
     navigator := None;
     screen := {| width := 0; height := 0 |};
     RTCPeerConnection := Abrupt (Thrown (Str "not supported")) |}.

(** A platform whose peer connections throw when [getTransceivers] is
    read. *)
Definition throwing_accessor : Platform :=
  {| isChromeOrChromium := true;
     navigator :=
       Some {| mediaDevices :=
                 Some {| getDisplayMedia := Some "getDisplayMedia" |} |};
     screen := {| width := 1920; height := 1080 |};
     RTCPeerConnection :=
       Normal {| getTransceivers := Abrupt (Thrown (Str "no transceivers")) |} |}.

Definition ended_track : MediaStreamTrack := {| readyState := "ended" |}.
Definition live_track : MediaStreamTrack := {| readyState := "live" |}.

(** ** The page

    [createAudioMediaElement] and [attachAudioMedia] work on the document.
    Elements are objects with an identity: the page keeps every element
    created so far under a number, and the document is the list of the
    numbers of the elements that are in it, in document order.  The list
    is cut where [document.body] ends, since that is where
    [document.body.append] puts an element. *)

Definition PC_AUDIO_EL_CLASS : string := "__pc-webrtc-inbound".

(** An element, as far as this module reads or writes it; [style] is the
    text assigned to it. *)
Record Element : Type := {
  tagName : string;
  classList : list string;
  style : string;
  autoplay : bool;
  srcObject : option MediaStream
}.

(** Modelled from the spec: [log] of [./logging] and [LogLevels] of
    [./types/enums] are not among the sources.  The logging channel takes
    the caller's context, a level and a message, records them and returns
    nothing that is looked at; the level is kept by its name. *)
Record LogEntry : Type := {
  logger : string;
  level : string;
  message : string
}.

Record Page : Type := {
  (** every element created so far *)
  nodes : gmap nat Element;
  (** the elements of the document up to the end of [document.body] *)
  upto_body : list nat;
  (** the elements of the document after [document.body] *)
  past_body : list nat;
  (** [document.body] is not [null] *)
  has_body : bool;
  (** what the logging channel has recorded, oldest first *)
  console : list LogEntry
}.

Definition document_order (pg : Page) : list nat :=
  upto_body pg ++ past_body pg.

(** The document holds only elements that exist. *)
Definition page_ok (pg : Page) : Prop :=
  ∀ id, id ∈ document_order pg → is_Some (nodes pg !! id).

(** A computation on the page. *)
Definition D (A : Type) : Type := Page → Completion A * Page.

#[global] Instance D_ret : MRet D := λ A a pg, (Normal a, pg).

#[global] Instance D_bind : MBind D := λ A B k m pg,
  match m pg with
  | (Normal a, pg') => k a pg'
  | (Abrupt e, pg') => (Abrupt e, pg')
  end.

(** The element [id] matches the selector [tag.cls]. *)
Definition matches_selector (pg : Page) (tag cls : string) (id : nat) : bool :=
  match nodes pg !! id with
  | Some el => String.eqb (tagName el) tag && bool_decide (cls ∈ classList el)
  | None => false
  end.

(** [document.querySelector(`tag.cls`)]: the first match in document
    order, or [null]. *)
Definition querySelector (tag cls : string) : D (option nat) := λ pg,
  (Normal (find (matches_selector pg tag cls) (document_order pg)), pg).

(** [document.createElement(tag)]: a new element, in no document yet. *)
Definition createElement (tag : string) : D nat := λ pg,
  let id := fresh (dom (nodes pg)) in
  (Normal id,
   {| nodes := <[id := {| tagName := tag; classList := []; style := "";
                          autoplay := false; srcObject := None |}]> (nodes pg);
      upto_body := upto_body pg;
      past_body := past_body pg;
      has_body := has_body pg;
      console := console pg |}).

(** A write to the element [id]. *)
Definition update_element (id : nat) (f : Element → Element) : D unit := λ pg,
  (Normal (),
   {| nodes := alter f id (nodes pg);
      upto_body := upto_body pg;
      past_body := past_body pg;
      has_body := has_body pg;
      console := console pg |}).

(** [el.classList.add(cls)]: a token list holds a token once. *)
Definition classList_add (id : nat) (cls : string) : D unit :=
  update_element id (λ el,
    {| tagName := tagName el;
       classList := if bool_decide (cls ∈ classList el) then classList el
                    else classList el ++ [cls];
       style := style el;
       autoplay := autoplay el;
       srcObject := srcObject el |}).

(** [el.style = text] *)
Definition set_style (id : nat) (text : string) : D unit :=
  update_element id (λ el,
    {| tagName := tagName el; classList := classList el; style := text;
       autoplay := autoplay el; srcObject := srcObject el |}).

(** [el.autoplay = b] *)
Definition set_autoplay (id : nat) (b : bool) : D unit :=
  update_element id (λ el,
    {| tagName := tagName el; classList := classList el; style := style el;
       autoplay := b; srcObject := srcObject el |}).

(** [el.srcObject = src] *)
Definition set_srcObject (id : nat) (src : option MediaStream) : D unit :=
  update_element id (λ el,
    {| tagName := tagName el; classList := classList el; style := style el;
       autoplay := autoplay el; srcObject := src |}).

(** [el.srcObject] *)
Definition get_srcObject (id : nat) : D (option MediaStream) := λ pg,
  (Normal (nodes pg !! id ≫= srcObject), pg).

(** [document.body.append(el)]: the element becomes the last child of the
    body, leaving the place it had in the document, if any; a [TypeError]
    when there is no body. *)
Definition body_append (id : nat) : D unit := λ pg,
  if has_body pg then
    (Normal (),
     {| nodes := nodes pg;
        upto_body := filter (λ i, i ≠ id) (upto_body pg) ++ [id];
        past_body := filter (λ i, i ≠ id) (past_body pg);
        has_body := has_body pg;
        console := console pg |})
  else (Abrupt TypeError, pg).

(** Modelled from the spec: [log] of [./logging], called as
    [log.call(sdk, level, message)], is not among the sources; the logging
    channel records what it is given and returns nothing that is looked at. *)
Definition log (sdk : string) (lvl : string) (msg : string) : D unit := λ pg,
  (Normal (),
   {| nodes := nodes pg;
      upto_body := upto_body pg;
      past_body := past_body pg;
      has_body := has_body pg;
      console := console pg ++ [{| logger := sdk; level := lvl; message := msg |}] |}).

Definition createAudioMediaElement : D nat :=
  existing ← querySelector "audio" PC_AUDIO_EL_CLASS;
  match existing with
  | Some el => mret el
  | None =>
      audio ← createElement "audio";
      classList_add audio PC_AUDIO_EL_CLASS;;
      set_style audio "visibility: hidden";;
      body_append audio;;
      mret audio
  end.

Definition attach_warning : string :=
  "Attaching media to an audio element that already has a srcObject. This can result is audio issues.".

(** [attachAudioMedia(sdk, stream, audioElement?)]; [None] is the call
    without the third argument. *)
Definition attachAudioMedia (sdk : string) (stream : MediaStream)
    (audioElement : option nat) : D unit :=
  audioElement ←
    (match audioElement with
     | Some el => mret el
     | None => createAudioMediaElement
     end : D nat);
  bound ← get_srcObject audioElement;
  (if bound is Some _ then log sdk "warn" attach_warning else mret ());;
  set_autoplay audioElement true;;
  set_srcObject audioElement (Some stream).

(** The element that [createAudioMediaElement] would find. *)
Definition inbound_audio (pg : Page) : option nat :=
  find (matches_selector pg "audio" PC_AUDIO_EL_CLASS) (document_order pg).

(** Calls on the page, one after another. *)
Inductive PageOp : Type :=
  | CreateAudioMediaElement
  | AttachAudioMedia (sdk : string) (stream : MediaStream)
      (audioElement : option nat).

Definition perform_on_page (op : PageOp) : D (option nat) :=
  match op with
  | CreateAudioMediaElement => el ← createAudioMediaElement; mret (Some el)
  | AttachAudioMedia sdk stream audioElement =>
      attachAudioMedia sdk stream audioElement;; mret None
  end.

Fixpoint run_on_page (ops : list PageOp) (pg : Page)
  : list (Completion (option nat)) * Page :=
  match ops with
  | [] => ([], pg)
  | op :: rest =>
      let '(r, pg1) := perform_on_page op pg in
      let '(rs, pg2) := run_on_page rest pg1 in
      (r :: rs, pg2)
  end.

(** A page with a body and nothing in it. *)
Definition blank_page : Page :=
  {| nodes := ∅; upto_body := []; past_body := []; has_body := true;
     console := [] |}.

(** The element [createAudioMediaElement] builds. *)
Definition hidden_audio : Element :=
  {| tagName := "audio"; classList := [PC_AUDIO_EL_CLASS];
     style := "visibility: hidden"; autoplay := false; srcObject := None |}.

(** The page after a new element [el] has been put under [id] at the end of
    the body. *)
Definition with_appended (id : nat) (el : Element) (pg : Page) : Page :=
  {| nodes := <[id := el]> (nodes pg);
     upto_body := upto_body pg ++ [id];
     past_body := past_body pg;
     has_body := has_body pg;
     console := console pg |}.

(** An element after a stream has been attached to it. *)
Definition playing (stream : MediaStream) (el : Element) : Element :=
  {| tagName := tagName el; classList := classList el; style := style el;
     autoplay := true; srcObject := Some stream |}.

Definition warning (sdk : string) : LogEntry :=
  {| logger := sdk; level := "warn"; message := attach_warning |}.

(** The page after [stream] has been attached to the element [id] on behalf
    of [sdk]: a warning when the element had a source already. *)
Definition with_playing (sdk : string) (stream : MediaStream) (id : nat)
    (pg : Page) : Page :=
  {| nodes := alter (playing stream) id (nodes pg);
     upto_body := upto_body pg;
     past_body := past_body pg;
     has_body := has_body pg;
     console :=
       console pg
       ++ (if nodes pg !! id ≫= srcObject is Some _ then [warning sdk] else []) |}.

Definition page_okb (pg : Page) : bool :=
  forallb (λ id, bool_decide (is_Some (nodes pg !! id))) (document_order pg).

(** A page whose document holds a [div] and, after it, a marked audio
    element that plays a stream already. *)
Definition page_with_player : Page :=
  {| nodes :=
       {[ 0%nat := {| tagName := "div"; classList := []; style := "";
                      autoplay := false; srcObject := None |};
          1%nat := {| tagName := "audio"; classList := [PC_AUDIO_EL_CLASS];
                      style := "visibility: hidden"; autoplay := true;
                      srcObject := Some {| getTracks := [live_track] |} |} ]};
     upto_body := [0%nat; 1%nat];
     past_body := [];
     has_body := true;
     console := [] |}.

(** A page whose document has not got its body yet. *)
Definition page_without_body : Page :=
  {| nodes := ∅; upto_body := []; past_body := []; has_body := false;
     console := [] |}.

Definition is_Requested (e : Event) : bool :=
  match e with Requested _ _ => true | _ => false end.

Definition is_check (call : Platform * Op) : bool :=
  match call.2 with CheckHasTransceiverFunctionality => true | _ => false end.

(** * Properties *)

(** ** Constraint negotiation *)

Section Negotiation.

Variable p : Platform.

(** The feature test succeeds exactly when the whole chain down to the
    [getDisplayMedia] property is there. *)
Lemma hasGetDisplayMedia_spec :
  hasGetDisplayMedia p = true ↔
  ∃ nav md f, navigator p = Some nav ∧ mediaDevices nav = Some md
              ∧ getDisplayMedia md = Some f.
Proof.
  unfold hasGetDisplayMedia. split.
  - destruct (navigator p) as [nav|]; [|done].
    destruct (mediaDevices nav) as [md|] eqn:Hmd; [|done].
    destruct (getDisplayMedia md) as [f|] eqn:Hf; [|done].
    intros _. by exists nav, md, f.
  - intros (nav & md & f & -> & -> & ->). done.
Qed.

Lemma hasGetDisplayMedia_declared :
  hasGetDisplayMedia p = true → declared_window p.
Proof.
  rewrite hasGetDisplayMedia_spec. intros (nav & md & _ & ? & ? & _).
  by exists nav, md.
Qed.

(** C2: on a Chromium-family engine with the display-media primitive the result
    is exactly [{audio: false, video: true}]; on a Chromium-family engine
    without it the video part carries the capture source ['desktop'], the
    screen's width and height as maxima and a frame-rate cap of 15; on any
    other engine the result is exactly
    [{audio: false, video: {mediaSource: 'window'}}]. *)
Theorem getScreenShareConstraints_shape :
  (isChromeOrChromium p = true → hasGetDisplayMedia p = true →
     getScreenShareConstraints p
     = Obj {[ "audio" := Bool false; "video" := Bool true ]})
  ∧ (isChromeOrChromium p = true → hasGetDisplayMedia p = false →
       let c := getScreenShareConstraints p in
       let mandatory := get_prop (get_prop c "video") "mandatory" in
       c = Obj {[ "audio" := Bool false;
                  "video" := Obj {[ "mandatory" := mandatory ]} ]}
       ∧ get_prop mandatory "chromeMediaSource" = Str "desktop"
       ∧ get_prop mandatory "maxWidth" = Num (width (screen p))
       ∧ get_prop mandatory "maxHeight" = Num (height (screen p))
       ∧ get_prop mandatory "maxFrameRate" = Num 15)
  ∧ (isChromeOrChromium p = false →
       getScreenShareConstraints p
       = Obj {[ "audio" := Bool false;
                "video" := Obj {[ "mediaSource" := Str "window" ]} ]}).
Proof.
  unfold getScreenShareConstraints. split; [|split].
  - by intros -> ->.
  - intros -> ->. cbv zeta. repeat split.
  - by intros ->.
Qed.

(** C3: with [cameraOnly = true] the constraints of [getVideoConstraints] have
    [audio] equal to [false] on every engine; the override wins over the
    Chromium audio hints. *)
Theorem getVideoConstraints_cameraOnly_audio_false :
  get_prop (getVideoConstraints p true) "audio" = Bool false.
Proof.
  unfold getVideoConstraints.
  destruct (isChromeOrChromium p); reflexivity.
Qed.

(** C4: with [cameraOnly = false], a Chromium-family engine gets an audio
    constraint object that is not empty and holds [echoCancellation: true]
    along with the noise-suppression and gain-control hints; any other engine
    gets the empty audio object. *)
Theorem getVideoConstraints_audio_hints :
  (isChromeOrChromium p = true →
     ∃ hints : gmap string Val,
       get_prop (getVideoConstraints p false) "audio" = Obj hints
       ∧ hints ≠ ∅
       ∧ hints !! "echoCancellation" = Some (Bool true)
       ∧ hints !! "noiseSuppression" = Some (Bool true)
       ∧ hints !! "autoGainControl" = Some (Bool true))
  ∧ (isChromeOrChromium p = false →
       get_prop (getVideoConstraints p false) "audio" = Obj ∅).
Proof.
  unfold getVideoConstraints. split; intros ->.
  - eexists. split; [reflexivity|]. repeat split; try reflexivity.
    intros H. apply (f_equal (λ m : gmap string Val, m !! "echoCancellation")) in H.
    discriminate H.
  - reflexivity.
Qed.

End Negotiation.

(** ** Acquisition entry points *)

Section Acquisition.

Variable p : Platform.

Lemma recording_recording (es1 es2 : list Event) (w : World) :
  recording es2 (recording es1 w) = recording (es1 ++ es2) w.
Proof. unfold recording; simpl. by rewrite <- app_assoc. Qed.

Lemma events_of_recording {A : Type} (m : M A) (w : World)
    (r : Completion A) (es : list Event) :
  m w = (r, recording es w) → events_of m w = es.
Proof.
  intros Hm. unfold events_of. rewrite Hm. simpl.
  by rewrite drop_app_length.
Qed.

Lemma getUserMedia_declared (c : Val) (w : World) :
  declared_window p →
  getUserMedia p c w
  = (Normal {| primitive := GetUserMedia; requested := c |},
     recording [Requested GetUserMedia c] w).
Proof. intros (nav & md & Hnav & Hmd). unfold getUserMedia. by rewrite Hnav, Hmd. Qed.

Lemma getDisplayMedia_call_available (c : Val) (w : World) :
  hasGetDisplayMedia p = true →
  getDisplayMedia_call p c w
  = (Normal {| primitive := GetDisplayMedia; requested := c |},
     recording [Requested GetDisplayMedia c] w).
Proof.
  rewrite hasGetDisplayMedia_spec. intros (nav & md & f & Hnav & Hmd & Hf).
  unfold getDisplayMedia_call. by rewrite Hnav, Hmd, Hf.
Qed.

(** Without [navigator.mediaDevices] the call of [getUserMedia] is a
    [TypeError], raised before anything is asked of the host. *)
Lemma getUserMedia_undeclared (c : Val) (w : World) :
  declared_windowb p = false → getUserMedia p c w = (Abrupt TypeError, w).
Proof.
  unfold declared_windowb, getUserMedia.
  destruct (navigator p) as [nav|]; [|done].
  destruct (mediaDevices nav); [|done].
  intros H. by apply bool_decide_eq_false in H as [].
Qed.

Lemma declared_windowb_spec : declared_windowb p = true ↔ declared_window p.
Proof.
  unfold declared_windowb, declared_window. split.
  - destruct (navigator p) as [nav|]; [|done].
    intros [md Hmd]%bool_decide_eq_true. by exists nav, md.
  - intros (nav & md & -> & Hmd). apply bool_decide_eq_true. by exists md.
Qed.

(** What [startDisplayMedia] adds to the journal, on any platform. *)
Lemma startDisplayMedia_events (w : World) :
  events_of (startDisplayMedia p) w
  = Invoked "getScreenShareConstraints" :: Invoked "hasGetDisplayMedia"
    :: (if declared_windowb p
        then [Requested
                (if hasGetDisplayMedia p then GetDisplayMedia else GetUserMedia)
                (getScreenShareConstraints p)]
        else []).
Proof.
  set (c := getScreenShareConstraints p).
  destruct (declared_windowb p) eqn:Hdecl.
  - apply declared_windowb_spec in Hdecl.
    destruct (hasGetDisplayMedia p) eqn:Hhas; eapply events_of_recording;
      unfold startDisplayMedia, call, mbind, M_bind, mret, M_ret, emit;
      fold c; rewrite Hhas.
    + rewrite getDisplayMedia_call_available by done.
      rewrite !recording_recording. reflexivity.
    + rewrite getUserMedia_declared by done.
      rewrite !recording_recording. reflexivity.
  - assert (hasGetDisplayMedia p = false) as Hhas.
    { apply not_true_is_false. intros Hhas%hasGetDisplayMedia_declared.
      apply declared_windowb_spec in Hhas. congruence. }
    eapply events_of_recording.
    unfold startDisplayMedia, call, mbind, M_bind, mret, M_ret, emit. fold c.
    rewrite Hhas, getUserMedia_undeclared by done.
    rewrite !recording_recording. reflexivity.
Qed.

(** C1: whatever the engine detection says and whether or not the display-media
    primitive is there, the constraints returned by [getScreenShareConstraints]
    have [audio] equal to [false]; no capture request made by
    [startDisplayMedia] asks for audio. *)
Theorem getScreenShareConstraints_audio_false :
  get_prop (getScreenShareConstraints p) "audio" = Bool false
  ∧ ∀ w, existsb asks_for_audio (events_of (startDisplayMedia p) w) = false.
Proof.
  assert (get_prop (getScreenShareConstraints p) "audio" = Bool false) as Haudio.
  { unfold getScreenShareConstraints.
    destruct (isChromeOrChromium p), (hasGetDisplayMedia p); reflexivity. }
  split; [exact Haudio|].
  intros w. rewrite startDisplayMedia_events.
  destruct (declared_windowb p); simpl; [|done].
  by rewrite Haudio.
Qed.


(** C8: [startMedia({video: false, audio: true})] passes exactly [{audio: true}]
    to [getUserMedia]; [getVideoConstraints] is not invoked, and the call does
    the same on every engine. *)
Theorem startMedia_audio_only (w : World) :
  declared_window p →
  let opts := {| video := Some false; audio := Some true |} in
  let constraints := Obj {[ "audio" := Bool true ]} in
  startMedia p (Some opts) w
  = (Normal {| primitive := GetUserMedia; requested := constraints |},
     recording [Requested GetUserMedia constraints] w)
  ∧ events_of (startMedia p (Some opts)) w = [Requested GetUserMedia constraints]
  ∧ (Invoked "getVideoConstraints" ∉ events_of (startMedia p (Some opts)) w)
  ∧ (∀ q, declared_window q →
          startMedia q (Some opts) w = startMedia p (Some opts) w).
Proof.
  intros Hdecl. cbv zeta.
  assert (startMedia p (Some {| video := Some false; audio := Some true |}) w
          = (Normal {| primitive := GetUserMedia;
                       requested := Obj {[ "audio" := Bool true ]} |},
             recording [Requested GetUserMedia (Obj {[ "audio" := Bool true ]})] w))
    as Hrun.
  { unfold startMedia, mbind, M_bind, mret, M_ret. simpl.
    by rewrite getUserMedia_declared. }
  split; [exact Hrun|].
  rewrite (events_of_recording _ _ _ _ Hrun). split; [done|]. split.
  - intros Hin. apply list_elem_of_singleton in Hin. discriminate Hin.
  - intros q Hq. rewrite Hrun.
    unfold startMedia, mbind, M_bind, mret, M_ret. simpl.
    clear Hdecl Hrun. destruct Hq as (nav & md & Hnav & Hmd).
    unfold getUserMedia. by rewrite Hnav, Hmd.
Qed.

(** C10: whenever an options object is passed whose [video] is absent or
    [false], the constraints handed to [getUserMedia] are exactly
    [{audio: true}], whatever [audio] says; the default [{video: true,
    audio: true}] stands in only for an omitted argument. *)
Theorem startMedia_without_video (w : World) (opts : MediaOpts) :
  declared_window p →
  video opts ≠ Some true →
  let constraints := Obj {[ "audio" := Bool true ]} in
  startMedia p (Some opts) w
  = (Normal {| primitive := GetUserMedia; requested := constraints |},
     recording [Requested GetUserMedia constraints] w)
  ∧ startMedia p None w
    = startMedia p (Some {| video := Some true; audio := Some true |}) w
  ∧ startMedia p None w
    = (Normal {| primitive := GetUserMedia;
                 requested := getVideoConstraints p false |},
       recording [Invoked "getVideoConstraints";
                  Requested GetUserMedia (getVideoConstraints p false)] w).
Proof.
  intros Hdecl Hvideo. cbv zeta. split; [|split].
  - unfold startMedia, mbind, M_bind, mret, M_ret. simpl.
    assert (truthy_opt (video opts) = false) as ->.
    { destruct (video opts) as [[]|]; done. }
    by rewrite getUserMedia_declared.
  - reflexivity.
  - unfold startMedia, call, mbind, M_bind, mret, M_ret, emit. simpl.
    rewrite getUserMedia_declared by done.
    by rewrite recording_recording.
Qed.

End Acquisition.

(** ** Capability probes *)

Section Probes.

Lemma recording_nil (w : World) : recording [] w = w.
Proof. destruct w. unfold recording; simpl. by rewrite app_nil_r. Qed.

Lemma probes_recording (es : list Event) (w : World) :
  probes (recording es w)
  = (probes w + length (filter (λ e, is_Constructed e = true) es))%nat.
Proof. unfold probes, recording; simpl. by rewrite filter_app, length_app. Qed.

(** A call that finds the variable set answers with it and leaves the world
    as it was: no peer connection is built. *)
Lemma checkHasTransceiverFunctionality_cached (p : Platform) (w : World) (b : bool) :
  _hasTransceiverFunctionality w = Some b →
  checkHasTransceiverFunctionality p w = (Normal (Some b), w).
Proof.
  intros Hflag.
  unfold checkHasTransceiverFunctionality, mbind, M_bind, read_flag.
  by rewrite Hflag.
Qed.

(** A call that finds the variable still [null] tries to build a peer
    connection and sets the variable to the boolean it answers with. *)
Lemma checkHasTransceiverFunctionality_first (p : Platform) (w : World) :
  _hasTransceiverFunctionality w = None →
  ∃ b : bool,
    checkHasTransceiverFunctionality p w
    = (Normal (Some b),
       {| _hasTransceiverFunctionality := Some b;
          journal := journal w ++ built p |})
    ∧ b = match RTCPeerConnection p with
          | Normal pc =>
              match getTransceivers pc with
              | Normal f => truthy f
              | Abrupt _ => false
              end
          | Abrupt _ => false
          end.
Proof.
  intros Hflag.
  unfold checkHasTransceiverFunctionality, mbind, M_bind, read_flag.
  rewrite Hflag.
  unfold try_catch, new_RTCPeerConnection, built, constructible, throw,
    mbind, M_bind, mret, M_ret, emit, eval, write_flag.
  destruct (RTCPeerConnection p) as [pc|e]; simpl.
  - destruct (getTransceivers pc) as [f|e]; simpl; eauto.
  - rewrite app_nil_r. eauto.
Qed.

(** The acquisition entry points only append capture requests and helper
    invocations to the journal. *)
Lemma startMedia_quiet (p : Platform) (arg : option MediaOpts) (w : World) :
  ∃ r es, startMedia p arg w = (r, recording es w)
          ∧ filter (λ e, is_Constructed e = true) es = [].
Proof.
  unfold startMedia, call, getUserMedia, throw, emit, mbind, M_bind, mret, M_ret.
  destruct (truthy_opt _); simpl;
    destruct (navigator p) as [nav|]; simpl;
    try destruct (mediaDevices nav); simpl;
    rewrite ?recording_recording; eauto;
    eexists _, []; by rewrite recording_nil.
Qed.

Lemma startDisplayMedia_quiet (p : Platform) (w : World) :
  ∃ r es, startDisplayMedia p w = (r, recording es w)
          ∧ filter (λ e, is_Constructed e = true) es = [].
Proof.
  unfold startDisplayMedia, call, getDisplayMedia_call, getUserMedia, throw,
    emit, mbind, M_bind, mret, M_ret, hasGetDisplayMedia.
  destruct (navigator p) as [nav|]; simpl;
    try (destruct (mediaDevices nav) as [md|]; simpl);
    try (destruct (getDisplayMedia md); simpl);
    rewrite ?recording_recording; eauto.
Qed.

(** Once the variable is set, no entry point changes it or builds a peer
    connection, and the probe answers with it. *)
Lemma perform_cached (p : Platform) (op : Op) (w : World) (b : bool) :
  _hasTransceiverFunctionality w = Some b →
  _hasTransceiverFunctionality (perform p op w).2 = Some b
  ∧ probes (perform p op w).2 = probes w
  ∧ (op = CheckHasTransceiverFunctionality →
     (perform p op w).1 = Normal (Capability (Some b))).
Proof.
  intros Hflag. destruct op; unfold perform, mbind, M_bind.
  - destruct (startDisplayMedia_quiet p w) as (r & es & -> & Hes).
    destruct r; simpl; rewrite probes_recording, Hes; simpl;
      (split; [done|split; [lia|done]]).
  - destruct (startMedia_quiet p arg w) as (r & es & -> & Hes).
    destruct r; simpl; rewrite probes_recording, Hes; simpl;
      (split; [done|split; [lia|done]]).
  - by rewrite (checkHasTransceiverFunctionality_cached p w b Hflag).
Qed.

Lemma run_cached (calls : list (Platform * Op)) (w : World) (b : bool) :
  _hasTransceiverFunctionality w = Some b →
  _hasTransceiverFunctionality (run calls w).2 = Some b
  ∧ probes (run calls w).2 = probes w
  ∧ ∀ i q, calls !! i = Some (q, CheckHasTransceiverFunctionality) →
           (run calls w).1 !! i = Some (Normal (Capability (Some b))).
Proof.
  revert w. induction calls as [|[p op] rest IH]; intros w Hflag; simpl.
  - repeat split; [done|]. intros i q Hi. by rewrite lookup_nil in Hi.
  - destruct (perform_cached p op w b Hflag) as (Hflag1 & Hprobes1 & Hans).
    destruct (perform p op w) as [r w1]; simpl in *.
    destruct (IH w1 Hflag1) as (Hflag2 & Hprobes2 & Hlater).
    destruct (run rest w1) as [rs w2]; simpl in *.
    split; [done|]. split; [congruence|].
    intros [|i] q Hi; simpl in *.
    + injection Hi as -> ->. by rewrite Hans.
    + eauto.
Qed.

(** C5: [checkHasTransceiverFunctionality] is memoized.  Once a first call has
    set the variable, every later call, on whatever platform and between
    whatever other calls of the module, answers with the same boolean and
    builds no peer connection, and the variable keeps its value. *)
Theorem checkHasTransceiverFunctionality_memoized
    (p : Platform) (w : World) (calls : list (Platform * Op)) :
  ∃ b : bool,
    let first := checkHasTransceiverFunctionality p w in
    let later := run calls first.2 in
    first.1 = Normal (Some b)
    ∧ _hasTransceiverFunctionality first.2 = Some b
    ∧ (∀ q, checkHasTransceiverFunctionality q first.2
            = (Normal (Some b), first.2))
    ∧ _hasTransceiverFunctionality later.2 = Some b
    ∧ probes later.2 = probes first.2
    ∧ ∀ i q, calls !! i = Some (q, CheckHasTransceiverFunctionality) →
             later.1 !! i = Some (Normal (Capability (Some b))).
Proof.
  assert (∃ b w1, checkHasTransceiverFunctionality p w = (Normal (Some b), w1)
                  ∧ _hasTransceiverFunctionality w1 = Some b)
    as (b & w1 & Hfirst & Hflag).
  { destruct (_hasTransceiverFunctionality w) as [b|] eqn:Hw.
    - exists b, w. by rewrite (checkHasTransceiverFunctionality_cached p w b Hw).
    - destruct (checkHasTransceiverFunctionality_first p w Hw) as (b & -> & _).
      by eexists b, _. }
  exists b. cbv zeta. rewrite Hfirst; simpl.
  split; [done|]. split; [done|].
  split; [intros q; by apply checkHasTransceiverFunctionality_cached|].
  by apply run_cached.
Qed.

(** C6: a throw while the throwaway peer connection is built or inspected does
    not reach the caller: the first call then returns [false] and sets the
    variable to [false]; and in every case the call returns a boolean. *)
Theorem checkHasTransceiverFunctionality_never_throws (p : Platform) (w : World) :
  (∃ (b : bool) (w' : World),
      checkHasTransceiverFunctionality p w = (Normal (Some b), w')
      ∧ _hasTransceiverFunctionality w' = Some b)
  ∧ (_hasTransceiverFunctionality w = None → probe_throws p →
     checkHasTransceiverFunctionality p w
     = (Normal (Some false),
        {| _hasTransceiverFunctionality := Some false;
           journal := journal w ++ built p |})).
Proof.
  split.
  - destruct (_hasTransceiverFunctionality w) as [b|] eqn:Hw.
    + exists b, w. by rewrite (checkHasTransceiverFunctionality_cached p w b Hw).
    + destruct (checkHasTransceiverFunctionality_first p w Hw) as (b & -> & _).
      by eexists b, _.
  - intros Hw Hthrows.
    destruct (checkHasTransceiverFunctionality_first p w Hw) as (b & -> & ->).
    unfold probe_throws in Hthrows.
    destruct (RTCPeerConnection p) as [pc|]; [|done].
    destruct (getTransceivers pc); done.
Qed.

(** The loop of [checkAllTracksHaveEnded], from any starting value of its
    accumulator. *)
Lemma allTracksHaveEnded_loop (tracks : list MediaStreamTrack) (acc : bool) :
  fold_left
    (λ allTracksHaveEnded t,
       String.eqb (readyState t) "ended" && allTracksHaveEnded)
    tracks acc
  = acc && forallb (λ t, String.eqb (readyState t) "ended") tracks.
Proof.
  revert acc. induction tracks as [|t tracks IH]; intros acc; simpl.
  - by rewrite andb_true_r.
  - rewrite IH. destruct (String.eqb _ _), acc; done.
Qed.

(** C7: [checkAllTracksHaveEnded] answers [true] exactly when every track of
    the stream has [readyState] ['ended']: [true] for a stream without
    tracks, [false] as soon as one track is ['live']. *)
Theorem checkAllTracksHaveEnded_spec (stream : MediaStream) :
  (checkAllTracksHaveEnded stream = true
   ↔ ∀ t, t ∈ getTracks stream → readyState t = "ended")
  ∧ (getTracks stream = [] → checkAllTracksHaveEnded stream = true)
  ∧ ((∃ t, t ∈ getTracks stream ∧ readyState t = "live") →
     checkAllTracksHaveEnded stream = false).
Proof.
  assert (checkAllTracksHaveEnded stream = true
          ↔ ∀ t, t ∈ getTracks stream → readyState t = "ended") as Hiff.
  { unfold checkAllTracksHaveEnded. rewrite allTracksHaveEnded_loop; simpl.
    rewrite forallb_forall. split.
    - intros H t Ht. apply String.eqb_eq, H. by apply list_elem_of_In.
    - intros H t Ht. apply String.eqb_eq, H. by apply list_elem_of_In. }
  split; [exact Hiff|]. split.
  - intros Hnil. apply Hiff. rewrite Hnil. intros t Ht. by apply not_elem_of_nil in Ht.
  - intros (t & Ht & Hlive). apply not_true_is_false. intros Htrue.
    rewrite Hiff in Htrue. specialize (Htrue t Ht). congruence.
Qed.

End Probes.

(** ** The properties at work on the example platforms *)

Lemma declared_window_gecko : declared_window gecko.
Proof. by eexists _, _. Qed.

Lemma declared_window_chromium_legacy : declared_window chromium_legacy.
Proof. by eexists _, _. Qed.

Lemma declared_window_chromium_with_picker : declared_window chromium_with_picker.
Proof. by eexists _, _. Qed.

(** The three branches of [getScreenShareConstraints]. *)
Lemma getScreenShareConstraints_shape_witness :
  getScreenShareConstraints chromium_with_picker
  = Obj {[ "audio" := Bool false; "video" := Bool true ]}
  ∧ get_prop
      (get_prop (get_prop (getScreenShareConstraints chromium_legacy) "video")
         "mandatory") "maxWidth"
    = Num 1280
  ∧ getScreenShareConstraints gecko
    = Obj {[ "audio" := Bool false;
             "video" := Obj {[ "mediaSource" := Str "window" ]} ]}.
Proof.
  split; [|split].
  - apply (proj1 (getScreenShareConstraints_shape chromium_with_picker));
      reflexivity.
  - destruct (getScreenShareConstraints_shape chromium_legacy)
      as (_ & Hlegacy & _).
    destruct Hlegacy as (_ & _ & Hwidth & _); [reflexivity..|].
    exact Hwidth.
  - apply (proj2 (proj2 (getScreenShareConstraints_shape gecko))).
    reflexivity.
Defined.

(** The audio part of the camera constraints on a Chromium-family engine and
    on another one. *)
Lemma getVideoConstraints_audio_hints_witness :
  get_prop (get_prop (getVideoConstraints chromium_legacy false) "audio")
    "echoCancellation" = Bool true
  ∧ get_prop (getVideoConstraints gecko false) "audio" = Obj ∅.
Proof.
  split.
  - destruct (proj1 (getVideoConstraints_audio_hints chromium_legacy))
      as (hints & -> & _ & Hecho & _); [reflexivity|].
    simpl. by rewrite Hecho.
  - apply (proj2 (getVideoConstraints_audio_hints gecko)). reflexivity.
Defined.

(** A first probe where no peer connection can be built answers [false];
    a later probe on a platform with transceivers still answers [false]. *)
Lemma checkHasTransceiverFunctionality_memoized_witness :
  let w1 := (checkHasTransceiverFunctionality gecko initial).2 in
  checkHasTransceiverFunctionality chromium_with_picker w1
  = (Normal (Some false), w1)
  ∧ (checkHasTransceiverFunctionality chromium_with_picker initial).1
    = Normal (Some true).
Proof.
  cbv zeta. split; [|reflexivity].
  destruct (checkHasTransceiverFunctionality_memoized gecko initial
              [(chromium_with_picker, CheckHasTransceiverFunctionality)])
    as (b & Hfirst & _ & Hlater & _).
  cbv zeta in Hfirst, Hlater. rewrite Hlater.
  vm_compute in Hfirst. by injection Hfirst as <-.
Defined.

(** The constructor missing, the constructor throwing, and the property read
    throwing all end in [false]; a peer connection has been built only in the
    last case. *)
Lemma checkHasTransceiverFunctionality_never_throws_witness :
  probe_throws headless
  ∧ checkHasTransceiverFunctionality headless initial
    = (Normal (Some false),
       {| _hasTransceiverFunctionality := Some false; journal := [] |})
  ∧ checkHasTransceiverFunctionality gecko initial
    = (Normal (Some false),
       {| _hasTransceiverFunctionality := Some false; journal := [] |})
  ∧ probe_throws throwing_accessor
  ∧ checkHasTransceiverFunctionality throwing_accessor initial
    = (Normal (Some false),
       {| _hasTransceiverFunctionality := Some false;
          journal := [Constructed] |}).
Proof.
  split; [exact I|]. split; [|split; [|split; [exact I|]]].
  - apply (proj2 (checkHasTransceiverFunctionality_never_throws headless initial));
      [reflexivity | exact I].
  - apply (proj2 (checkHasTransceiverFunctionality_never_throws gecko initial));
      [reflexivity | exact I].
  - apply (proj2 (checkHasTransceiverFunctionality_never_throws
                    throwing_accessor initial));
      [reflexivity | exact I].
Defined.

Lemma checkAllTracksHaveEnded_spec_witness :
  checkAllTracksHaveEnded {| getTracks := [] |} = true
  ∧ checkAllTracksHaveEnded {| getTracks := [ended_track; ended_track] |} = true
  ∧ checkAllTracksHaveEnded {| getTracks := [ended_track; live_track] |} = false.
Proof.
  split; [|split].
  - apply (proj1 (proj2 (checkAllTracksHaveEnded_spec {| getTracks := [] |}))).
    reflexivity.
  - apply (proj1 (checkAllTracksHaveEnded_spec
                    {| getTracks := [ended_track; ended_track] |})).
    simpl. intros t Ht. apply elem_of_cons in Ht as [->|Ht]; [reflexivity|].
    apply list_elem_of_singleton in Ht as ->. reflexivity.
  - apply (proj2 (proj2 (checkAllTracksHaveEnded_spec
                           {| getTracks := [ended_track; live_track] |}))).
    exists live_track. simpl. split; [|reflexivity].
    apply elem_of_cons. right. apply list_elem_of_singleton. reflexivity.
Defined.

Lemma startMedia_audio_only_witness :
  declared_window gecko
  ∧ startMedia gecko (Some {| video := Some false; audio := Some true |}) initial
    = (Normal {| primitive := GetUserMedia;
                 requested := Obj {[ "audio" := Bool true ]} |},
       recording [Requested GetUserMedia (Obj {[ "audio" := Bool true ]})] initial).
Proof.
  split; [exact declared_window_gecko|].
  apply (proj1 (startMedia_audio_only gecko initial declared_window_gecko)).
Defined.



(** [startMedia({})] and [startMedia({video: false, audio: false})]. *)
Lemma startMedia_without_video_witness :
  (startMedia chromium_with_picker
     (Some {| video := None; audio := None |}) initial).1
  = Normal {| primitive := GetUserMedia;
              requested := Obj {[ "audio" := Bool true ]} |}
  ∧ (startMedia chromium_with_picker
       (Some {| video := Some false; audio := Some false |}) initial).1
    = Normal {| primitive := GetUserMedia;
                requested := Obj {[ "audio" := Bool true ]} |}.
Proof.
  split.
  - rewrite (proj1 (startMedia_without_video chromium_with_picker initial
                      {| video := None; audio := None |}
                      declared_window_chromium_with_picker ltac:(discriminate))).
    reflexivity.
  - rewrite (proj1 (startMedia_without_video chromium_with_picker initial
                      {| video := Some false; audio := Some false |}
                      declared_window_chromium_with_picker ltac:(discriminate))).
    reflexivity.
Defined.

(** Outside the declared window the entry points throw before any capture
    primitive is reached. *)
Example startMedia_headless :
  startMedia headless (Some {| video := Some false; audio := Some true |}) initial
  = (Abrupt TypeError, initial).
Proof. reflexivity. Qed.

Example createNewStreamWithTrack_single (t : MediaStreamTrack) :
  getTracks (createNewStreamWithTrack t) = [t].
Proof. reflexivity. Qed.

(** ** The inbound audio element *)

Section InboundAudio.

Lemma find_agree {A : Type} (f g : A → bool) (l : list A) :
  (∀ x, x ∈ l → f x = g x) → find f l = find g l.
Proof.
  induction l as [|a l IH]; intros Hfg; simpl; [done|].
  rewrite <- (Hfg a) by apply list_elem_of_here.
  destruct (f a); [done|]. apply IH. intros x Hx. apply Hfg. by apply list_elem_of_further.
Qed.

Lemma find_app_None {A : Type} (f : A → bool) (l1 l2 : list A) :
  find f l1 = None → find f (l1 ++ l2) = find f l2.
Proof. induction l1 as [|a l1 IH]; simpl; [done|]. by destruct (f a). Qed.

Lemma find_app_Some {A : Type} (f : A → bool) (l1 l2 : list A) (x : A) :
  find f l1 = Some x → find f (l1 ++ l2) = Some x.
Proof. induction l1 as [|a l1 IH]; simpl; [done|]. by destruct (f a). Qed.

Lemma find_None_app {A : Type} (f : A → bool) (l1 l2 : list A) :
  find f (l1 ++ l2) = None → find f l1 = None ∧ find f l2 = None.
Proof.
  induction l1 as [|a l1 IH]; simpl; [done|]. by destruct (f a).
Qed.

Lemma filter_ne_absent (id : nat) (l : list nat) :
  id ∉ l → filter (λ i, i ≠ id) l = l.
Proof.
  induction l as [|a l IH]; intros Hid; [done|].
  apply not_elem_of_cons in Hid as [Hne Hid].
  rewrite filter_cons_True by done. by rewrite IH.
Qed.

Lemma page_okb_spec (pg : Page) : page_okb pg = true → page_ok pg.
Proof.
  unfold page_okb, page_ok. rewrite forallb_forall. intros Hall id Hid.
  apply list_elem_of_In in Hid. by apply Hall, bool_decide_eq_true in Hid.
Qed.

Lemma fresh_not_in_document (pg : Page) :
  page_ok pg → fresh (dom (nodes pg)) ∉ document_order pg.
Proof.
  intros Hok Hin. apply Hok in Hin. apply elem_of_dom in Hin.
  by apply is_fresh in Hin.
Qed.

(** With the marked element in the document, nothing is created. *)
Lemma createAudioMediaElement_reuses (pg : Page) (e : nat) :
  inbound_audio pg = Some e → createAudioMediaElement pg = (Normal e, pg).
Proof.
  intros Hfound. unfold createAudioMediaElement, mbind, D_bind, querySelector.
  fold (inbound_audio pg). by rewrite Hfound.
Qed.

(** Without it, one element is created and put at the end of the body. *)
Lemma createAudioMediaElement_creates (pg : Page) :
  page_ok pg → has_body pg = true → inbound_audio pg = None →
  createAudioMediaElement pg
  = (Normal (fresh (dom (nodes pg))),
     with_appended (fresh (dom (nodes pg))) hidden_audio pg).
Proof.
  intros Hok Hbody Hnone.
  apply fresh_not_in_document in Hok. unfold document_order in Hok.
  apply not_elem_of_app in Hok as [Hupto Hpast].
  unfold createAudioMediaElement, mbind, D_bind, querySelector.
  fold (inbound_audio pg). rewrite Hnone.
  unfold createElement, classList_add, set_style, update_element, body_append,
    mret, D_ret, with_appended; simpl.
  rewrite Hbody. simpl.
  rewrite !alter_insert_eq, !filter_ne_absent by done. simpl.
  reflexivity.
Qed.

Lemma matches_selector_appended (pg : Page) (e : nat) (el : Element)
    (tag cls : string) (id : nat) :
  id ≠ e →
  matches_selector (with_appended e el pg) tag cls id
  = matches_selector pg tag cls id.
Proof.
  intros Hne. unfold matches_selector, with_appended; simpl.
  by rewrite lookup_insert_ne.
Qed.

Lemma page_ok_appended (pg : Page) (e : nat) (el : Element) :
  page_ok pg → page_ok (with_appended e el pg).
Proof.
  intros Hok id. unfold document_order, with_appended; simpl.
  rewrite <- app_assoc, !elem_of_app, list_elem_of_singleton.
  destruct (decide (id = e)) as [->|Hne].
  - intros _. rewrite lookup_insert_eq. by eexists.
  - rewrite lookup_insert_ne by done. intros [?|[?|?]]; [|done|];
      apply Hok; unfold document_order; rewrite elem_of_app; auto.
Qed.

Lemma inbound_audio_appended (pg : Page) :
  page_ok pg → inbound_audio pg = None →
  inbound_audio (with_appended (fresh (dom (nodes pg))) hidden_audio pg)
  = Some (fresh (dom (nodes pg))).
Proof.
  intros Hok Hnone. set (e := fresh (dom (nodes pg))).
  assert (∀ id, id ∈ document_order pg →
            matches_selector (with_appended e hidden_audio pg)
              "audio" PC_AUDIO_EL_CLASS id = false) as Hold.
  { intros id Hid. rewrite matches_selector_appended.
    - apply (find_none _ _ Hnone). by apply list_elem_of_In.
    - intros ->. by apply (fresh_not_in_document pg Hok). }
  unfold inbound_audio, document_order in *.
  change (upto_body (with_appended e hidden_audio pg)) with (upto_body pg ++ [e])%list.
  change (past_body (with_appended e hidden_audio pg)) with (past_body pg).
  rewrite <- app_assoc. rewrite find_app_None.
  - simpl. unfold matches_selector at 1, with_appended; simpl.
    rewrite lookup_insert_eq. reflexivity.
  - destruct (find _ (upto_body pg)) as [x|] eqn:Hx; [|done].
    apply find_some in Hx as [Hin Hx]. rewrite Hold in Hx; [done|].
    apply elem_of_app. left. by apply list_elem_of_In.
Qed.

Lemma alter_twice (f g : Element → Element) (e : nat) (m : gmap nat Element) :
  alter f e (alter g e m) = alter (f ∘ g) e m.
Proof.
  apply map_eq. intros j. destruct (decide (e = j)) as [->|Hne].
  - rewrite !lookup_alter_eq. by destruct (m !! j).
  - by rewrite !lookup_alter_ne.
Qed.

(** Attaching to a given element: the element plays the stream, and a
    warning is logged when it had a source. *)
Lemma attachAudioMedia_given (sdk : string) (stream : MediaStream) (e : nat)
    (pg : Page) :
  attachAudioMedia sdk stream (Some e) pg
  = (Normal (), with_playing sdk stream e pg).
Proof.
  unfold attachAudioMedia, mbind, D_bind, mret, D_ret, get_srcObject,
    set_autoplay, set_srcObject, update_element, log, with_playing.
  destruct (nodes pg !! e ≫= srcObject) as [bound|]; simpl;
    rewrite alter_twice, ?app_nil_r; do 2 f_equal;
    by apply alter_ext.
Qed.

(** Attaching without naming an element: to the element
    [createAudioMediaElement] gives. *)
Lemma attachAudioMedia_omitted (sdk : string) (stream : MediaStream) (pg : Page) :
  attachAudioMedia sdk stream None pg
  = match createAudioMediaElement pg with
    | (Normal e, pg1) => (Normal (), with_playing sdk stream e pg1)
    | (Abrupt x, pg1) => (Abrupt x, pg1)
    end.
Proof.
  destruct (createAudioMediaElement pg) as [[e|x] pg1] eqn:Hcreate.
  - rewrite <- attachAudioMedia_given.
    unfold attachAudioMedia, mbind, D_bind. by rewrite Hcreate.
  - unfold attachAudioMedia, mbind, D_bind. by rewrite Hcreate.
Qed.

Lemma matches_selector_playing (sdk : string) (stream : MediaStream) (e : nat)
    (pg : Page) (tag cls : string) (id : nat) :
  matches_selector (with_playing sdk stream e pg) tag cls id
  = matches_selector pg tag cls id.
Proof.
  unfold matches_selector, with_playing; simpl.
  destruct (decide (e = id)) as [->|Hne].
  - rewrite lookup_alter_eq. by destruct (nodes pg !! id).
  - by rewrite lookup_alter_ne.
Qed.

Lemma inbound_audio_playing (sdk : string) (stream : MediaStream) (e : nat)
    (pg : Page) :
  inbound_audio (with_playing sdk stream e pg) = inbound_audio pg.
Proof.
  unfold inbound_audio. apply find_agree. intros id _.
  apply matches_selector_playing.
Qed.

Lemma page_ok_playing (sdk : string) (stream : MediaStream) (e : nat)
    (pg : Page) :
  page_ok pg → page_ok (with_playing sdk stream e pg).
Proof.
  intros Hok id Hid. unfold with_playing; simpl.
  apply lookup_alter_is_Some. by apply Hok.
Qed.

(** What is found is an [audio] element of the document with the class. *)
Lemma inbound_audio_Some (pg : Page) (e : nat) :
  inbound_audio pg = Some e →
  e ∈ document_order pg
  ∧ ∃ el, nodes pg !! e = Some el ∧ tagName el = "audio"
          ∧ PC_AUDIO_EL_CLASS ∈ classList el.
Proof.
  intros [Hin Hmatch]%find_some. split; [by apply list_elem_of_In|].
  unfold matches_selector in Hmatch.
  destruct (nodes pg !! e) as [el|]; [|done].
  apply andb_true_iff in Hmatch as [Htag Hcls].
  exists el. split; [done|]. split.
  - by apply String.eqb_eq.
  - by apply bool_decide_eq_true in Hcls.
Qed.

(** On a page with a body the call returns the marked element of the page
    it leaves, whether it found or made it. *)
Lemma createAudioMediaElement_returns (pg : Page) :
  page_ok pg → has_body pg = true →
  ∃ e pg1,
    createAudioMediaElement pg = (Normal e, pg1)
    ∧ inbound_audio pg1 = Some e
    ∧ page_ok pg1 ∧ has_body pg1 = true ∧ console pg1 = console pg
    ∧ (inbound_audio pg = Some e ∧ pg1 = pg
       ∨ inbound_audio pg = None ∧ e = fresh (dom (nodes pg))
         ∧ pg1 = with_appended e hidden_audio pg).
Proof.
  intros Hok Hbody. destruct (inbound_audio pg) as [e|] eqn:Hfound.
  - exists e, pg. rewrite (createAudioMediaElement_reuses pg e Hfound). auto 10.
  - eexists _, _. rewrite (createAudioMediaElement_creates pg Hok Hbody Hfound).
    split; [done|]. split; [by apply inbound_audio_appended|].
    split; [by apply page_ok_appended|]. auto 10.
Qed.

(** X1: a second call of [createAudioMediaElement] returns the element the
    first call returned and changes nothing. *)
Theorem createAudioMediaElement_idempotent (pg : Page) :
  page_ok pg → has_body pg = true →
  ∃ e pg1,
    createAudioMediaElement pg = (Normal e, pg1)
    ∧ createAudioMediaElement pg1 = (Normal e, pg1).
Proof.
  intros Hok Hbody.
  destruct (createAudioMediaElement_returns pg Hok Hbody)
    as (e & pg1 & Hcreate & Hfound & _).
  exists e, pg1. split; [done|]. by apply createAudioMediaElement_reuses.
Qed.

(** X2: on a page with a body [createAudioMediaElement] does not throw; the
    element it returns is in the document, is an [audio] element with the
    class [__pc-webrtc-inbound], and is the first such element in document
    order; every element of the document still exists and nothing is
    logged. *)
Theorem createAudioMediaElement_marked (pg : Page) :
  page_ok pg → has_body pg = true →
  ∃ e pg1 el,
    createAudioMediaElement pg = (Normal e, pg1)
    ∧ (e ∈ document_order pg1)
    ∧ nodes pg1 !! e = Some el
    ∧ tagName el = "audio"
    ∧ (PC_AUDIO_EL_CLASS ∈ classList el)
    ∧ find (matches_selector pg1 "audio" PC_AUDIO_EL_CLASS) (document_order pg1)
      = Some e
    ∧ page_ok pg1
    ∧ console pg1 = console pg.
Proof.
  intros Hok Hbody.
  destruct (createAudioMediaElement_returns pg Hok Hbody)
    as (e & pg1 & Hcreate & Hfound & Hok1 & _ & Hconsole & _).
  destruct (inbound_audio_Some pg1 e Hfound) as (Hin & el & Hel & Htag & Hcls).
  exists e, pg1, el. auto 10.
Qed.

(** X3: when the document has no marked audio element, the call makes a new
    element, hidden and with no source, and appends it at the end of the body;
    the elements that existed are untouched and keep their order. *)
Theorem createAudioMediaElement_appends (pg : Page) :
  page_ok pg → has_body pg = true → inbound_audio pg = None →
  ∃ e pg1,
    createAudioMediaElement pg = (Normal e, pg1)
    ∧ nodes pg !! e = None
    ∧ (e ∉ document_order pg)
    ∧ nodes pg1 !! e = Some hidden_audio
    ∧ (∀ id, id ≠ e → nodes pg1 !! id = nodes pg !! id)
    ∧ upto_body pg1 = (upto_body pg ++ [e])%list
    ∧ past_body pg1 = past_body pg.
Proof.
  intros Hok Hbody Hnone.
  eexists _, _. rewrite (createAudioMediaElement_creates pg Hok Hbody Hnone).
  split; [done|]. split.
  { apply not_elem_of_dom. apply is_fresh. }
  split; [by apply fresh_not_in_document|].
  unfold with_appended; simpl. split; [by rewrite lookup_insert_eq|].
  split; [|done]. intros id Hne. by rewrite lookup_insert_ne.
Qed.

(** X4: when the document has neither a marked audio element nor a body, the
    call throws a [TypeError]; the document is as it was, and still has no
    marked audio element. *)
Theorem createAudioMediaElement_without_body (pg : Page) :
  page_ok pg → has_body pg = false → inbound_audio pg = None →
  ∃ pg1,
    createAudioMediaElement pg = (Abrupt TypeError, pg1)
    ∧ document_order pg1 = document_order pg
    ∧ inbound_audio pg1 = None
    ∧ console pg1 = console pg.
Proof.
  intros Hok Hbody Hnone.
  unfold createAudioMediaElement, mbind, D_bind, querySelector.
  fold (inbound_audio pg). rewrite Hnone.
  unfold createElement, classList_add, set_style, update_element, body_append,
    mret, D_ret; simpl.
  rewrite Hbody. eexists. split; [reflexivity|]. split; [done|]. split; [|done].
  rewrite <- Hnone. unfold inbound_audio, document_order; simpl.
  apply find_agree. intros id Hid.
  unfold matches_selector; simpl.
  rewrite !lookup_alter_ne, lookup_insert_ne; [done|..];
    intros <-; by apply (fresh_not_in_document pg Hok).
Qed.

(** X5: attaching a stream to a given element never refuses: afterwards the
    element plays that stream with autoplay on and is otherwise as before,
    no other element and no place in the document changes, and a warning is
    logged exactly when the element had a source already. *)
Theorem attachAudioMedia_binds (sdk : string) (stream : MediaStream)
    (e : nat) (el : Element) (pg : Page) :
  nodes pg !! e = Some el →
  let r := attachAudioMedia sdk stream (Some e) pg in
  r.1 = Normal ()
  ∧ nodes r.2 !! e = Some (playing stream el)
  ∧ (∀ id, id ≠ e → nodes r.2 !! id = nodes pg !! id)
  ∧ document_order r.2 = document_order pg
  ∧ console r.2
    = (console pg ++ (if srcObject el is Some _ then [warning sdk] else []))%list.
Proof.
  intros Hel. cbv zeta. rewrite attachAudioMedia_given.
  unfold with_playing; simpl. split; [done|]. split.
  { by rewrite lookup_alter_eq, Hel. }
  split; [intros id Hne; by rewrite lookup_alter_ne|].
  split; [done|]. by rewrite Hel.
Qed.

(** X6: the last attach wins: after two streams have been attached to the same
    element it plays the second one, and the second call logs its warning. *)
Theorem attachAudioMedia_last_wins (sdk1 sdk2 : string)
    (stream1 stream2 : MediaStream) (e : nat) (el : Element) (pg : Page) :
  nodes pg !! e = Some el →
  let first := attachAudioMedia sdk1 stream1 (Some e) pg in
  let second := attachAudioMedia sdk2 stream2 (Some e) first.2 in
  second.1 = Normal ()
  ∧ nodes second.2 !! e = Some (playing stream2 el)
  ∧ console second.2 = (console first.2 ++ [warning sdk2])%list.
Proof.
  intros Hel. cbv zeta. rewrite !attachAudioMedia_given.
  unfold with_playing; simpl. split; [done|].
  rewrite !lookup_alter_eq, Hel. simpl. done.
Qed.

(** X7: two attaches that name no element go to the same element, the one
    [createAudioMediaElement] gives: the second call adds nothing to the
    document, leaves that element playing the second stream, and logs a
    warning. *)
Theorem attachAudioMedia_omitted_twice (sdk1 sdk2 : string)
    (stream1 stream2 : MediaStream) (pg : Page) :
  page_ok pg → has_body pg = true →
  let first := attachAudioMedia sdk1 stream1 None pg in
  let second := attachAudioMedia sdk2 stream2 None first.2 in
  first.1 = Normal () ∧ second.1 = Normal ()
  ∧ document_order second.2 = document_order first.2
  ∧ (length (document_order second.2) ≤ S (length (document_order pg)))%nat
  ∧ console second.2 = (console first.2 ++ [warning sdk2])%list
  ∧ ∃ e el,
      inbound_audio first.2 = Some e
      ∧ inbound_audio second.2 = Some e
      ∧ nodes second.2 !! e = Some el
      ∧ srcObject el = Some stream2
      ∧ autoplay el = true.
Proof.
  intros Hok Hbody. cbv zeta.
  destruct (createAudioMediaElement_returns pg Hok Hbody)
    as (e & pg1 & Hcreate & Hfound & Hok1 & Hbody1 & _ & Hwhich).
  destruct (inbound_audio_Some pg1 e Hfound) as (_ & el & Hel & _).
  rewrite (attachAudioMedia_omitted sdk1 stream1 pg), Hcreate. simpl.
  set (pg2 := with_playing sdk1 stream1 e pg1).
  assert (inbound_audio pg2 = Some e) as Hfound2.
  { unfold pg2. by rewrite inbound_audio_playing. }
  rewrite (attachAudioMedia_omitted sdk2 stream2 pg2),
    (createAudioMediaElement_reuses pg2 e Hfound2). simpl.
  assert (nodes pg2 !! e = Some (playing stream1 el)) as Hel2.
  { unfold pg2, with_playing; simpl. by rewrite lookup_alter_eq, Hel. }
  split; [done|]. split; [done|]. split; [done|]. split.
  { change (document_order (with_playing sdk2 stream2 e pg2))
      with (document_order pg1).
    destruct Hwhich as [[_ ->]|(_ & _ & ->)]; [lia|].
    unfold document_order, with_appended; simpl.
    rewrite !length_app; simpl. lia. }
  split.
  { by rewrite lookup_alter_eq, Hel. }
  exists e, (playing stream2 (playing stream1 el)).
  split; [done|]. split; [by rewrite inbound_audio_playing|].
  split; [|done].
  by rewrite !lookup_alter_eq, Hel.
Qed.

(** One call on a page with a body. *)
Lemma perform_on_page_step (op : PageOp) (pg : Page) :
  page_ok pg → has_body pg = true →
  ∃ r pg1,
    perform_on_page op pg = (Normal r, pg1)
    ∧ page_ok pg1 ∧ has_body pg1 = true
    ∧ (op = CreateAudioMediaElement → r = inbound_audio pg1 ∧ is_Some r)
    ∧ (∀ e, inbound_audio pg = Some e →
            inbound_audio pg1 = Some e ∧ document_order pg1 = document_order pg)
    ∧ (inbound_audio pg1 = None → document_order pg1 = document_order pg)
    ∧ (length (document_order pg1) ≤ S (length (document_order pg)))%nat.
Proof.
  intros Hok Hbody.
  assert (∀ e pg1,
            (inbound_audio pg = Some e ∧ pg1 = pg
             ∨ inbound_audio pg = None ∧ e = fresh (dom (nodes pg))
               ∧ pg1 = with_appended e hidden_audio pg) →
            (length (document_order pg1) ≤ S (length (document_order pg)))%nat)
    as Hgrow.
  { intros e pg1 [[_ ->]|(_ & _ & ->)]; [lia|].
    unfold document_order, with_appended; simpl.
    rewrite !length_app; simpl. lia. }
  destruct op as [|sdk stream [e|]]; unfold perform_on_page, mbind, D_bind.
  - destruct (createAudioMediaElement_returns pg Hok Hbody)
      as (e & pg1 & -> & Hfound & Hok1 & Hbody1 & _ & Hwhich).
    exists (Some e), pg1. split; [done|]. split; [done|]. split; [done|].
    split; [by rewrite Hfound|]. split.
    { intros e0 He0. destruct Hwhich as [[_ ->]|[Hnone _]]; [done|congruence]. }
    split; [congruence|]. by eapply Hgrow.
  - rewrite attachAudioMedia_given. eexists None, _. split; [done|].
    split; [by apply page_ok_playing|]. split; [done|]. split; [done|].
    split.
    { intros e0 He0. by rewrite inbound_audio_playing. }
    split; [done|]. unfold document_order; simpl; lia.
  - rewrite attachAudioMedia_omitted.
    destruct (createAudioMediaElement_returns pg Hok Hbody)
      as (e & pg1 & -> & Hfound & Hok1 & Hbody1 & _ & Hwhich).
    eexists None, _. split; [done|].
    split; [by apply page_ok_playing|]. split; [done|]. split; [done|].
    rewrite inbound_audio_playing.
    change (document_order (with_playing sdk stream e pg1))
      with (document_order pg1).
    split.
    { intros e0 He0. destruct Hwhich as [[_ ->]|[Hnone _]]; [done|congruence]. }
    split; [congruence|]. by eapply Hgrow.
Qed.

(** X8: however [createAudioMediaElement] and [attachAudioMedia] are called
    one after another on a page with a body, no call throws, at most one
    element is added to the document, every [createAudioMediaElement] returns
    the same element, and a marked audio element that was there at the start
    stays the one in use, the document unchanged. *)
Theorem run_on_page_single_element (ops : list PageOp) (pg : Page) :
  page_ok pg → has_body pg = true →
  let r := run_on_page ops pg in
  page_ok r.2
  ∧ (length (document_order r.2) ≤ S (length (document_order pg)))%nat
  ∧ (∀ e, inbound_audio pg = Some e →
          inbound_audio r.2 = Some e ∧ document_order r.2 = document_order pg)
  ∧ (∀ i, ops !! i = Some CreateAudioMediaElement →
          r.1 !! i = Some (Normal (inbound_audio r.2)))
  ∧ (∀ i res, r.1 !! i = Some res → ∃ v, res = Normal v).
Proof.
  cbv zeta. revert pg. induction ops as [|op ops IH]; intros pg Hok Hbody; simpl.
  - split; [done|]. split; [lia|]. split; [done|].
    split; intros i; by rewrite lookup_nil.
  - destruct (perform_on_page_step op pg Hok Hbody)
      as (r & pg1 & -> & Hok1 & Hbody1 & Hcreate & Hkeep & Hnone & Hgrow).
    destruct (IH pg1 Hok1 Hbody1) as (Hok2 & Hgrow2 & Hkeep2 & Hcreates & Hnormal).
    destruct (run_on_page ops pg1) as [rs pg2]; simpl in *.
    split; [done|]. split.
    { destruct (inbound_audio pg1) as [e1|] eqn:H1.
      - destruct (Hkeep2 e1 eq_refl) as [_ ->]. done.
      - rewrite <- (Hnone eq_refl). done. }
    split.
    { intros e He. destruct (Hkeep e He) as [He1 <-]. by apply Hkeep2. }
    split.
    { intros [|i] Hi; simpl in *.
      - injection Hi as ->. destruct (Hcreate eq_refl) as [-> [e1 H1]].
        rewrite H1. by destruct (Hkeep2 e1 H1) as [-> _].
      - by apply Hcreates. }
    intros [|i] res Hi; simpl in *.
    + injection Hi as <-. by eexists.
    + by eapply Hnormal.
Qed.

End InboundAudio.

(** ** More on the constraints and the entry points *)

Section More.

(** X9: [getVideoConstraints] always returns an object with exactly the
    properties [video] and [audio]; its video part is an object, so video is
    always asked for, it holds the noise-reduction hint on a Chromium-family
    engine and nothing elsewhere, and it does not depend on [cameraOnly]. *)
Theorem getVideoConstraints_video (p : Platform) (cameraOnly : bool) :
  ∃ fields : gmap string Val,
    getVideoConstraints p cameraOnly = Obj fields
    ∧ dom fields = {[ "video"; "audio" ]}
    ∧ fields !! "video"
      = Some (if isChromeOrChromium p
              then Obj {[ "googNoiseReduction" := Bool true ]}
              else Obj ∅)
    ∧ truthy (get_prop (getVideoConstraints p cameraOnly) "video") = true
    ∧ get_prop (getVideoConstraints p cameraOnly) "video"
      = get_prop (getVideoConstraints p (negb cameraOnly)) "video".
Proof.
  unfold getVideoConstraints.
  destruct (isChromeOrChromium p), cameraOnly; simpl;
    (eexists; split; [reflexivity|]);
    (split; [by rewrite ?dom_insert_L, ?dom_singleton_L, ?dom_empty_L; set_solver|]);
    done.
Qed.

(** X10: [getScreenShareConstraints] always returns an object with exactly the
    properties [audio] and [video], and its video part always asks for video. *)
Theorem getScreenShareConstraints_video (p : Platform) :
  ∃ fields : gmap string Val,
    getScreenShareConstraints p = Obj fields
    ∧ dom fields = {[ "audio"; "video" ]}
    ∧ truthy (get_prop (getScreenShareConstraints p) "video") = true.
Proof.
  unfold getScreenShareConstraints.
  destruct (isChromeOrChromium p), (hasGetDisplayMedia p);
    (eexists; split; [reflexivity|]);
    (split; [by rewrite ?dom_insert_L, ?dom_singleton_L, ?dom_empty_L; set_solver|]);
    done.
Qed.

(** X11: with [video] set, [startMedia] asks [getUserMedia] for what
    [getVideoConstraints] gives with [cameraOnly = !opts.audio]: video is asked
    for, and audio exactly when [opts.audio] is [true], so not when it is
    absent. *)
Theorem startMedia_with_video (p : Platform) (w : World) (opts : MediaOpts) :
  declared_window p → video opts = Some true →
  let c := getVideoConstraints p (negb (truthy_opt (audio opts))) in
  startMedia p (Some opts) w
  = (Normal {| primitive := GetUserMedia; requested := c |},
     recording [Invoked "getVideoConstraints"; Requested GetUserMedia c] w)
  ∧ truthy (get_prop c "audio") = truthy_opt (audio opts)
  ∧ truthy (get_prop c "video") = true.
Proof.
  intros Hdecl Hvideo. cbv zeta. split; [|split].
  - unfold startMedia, call, mbind, M_bind, mret, M_ret, emit. simpl.
    rewrite Hvideo. simpl.
    rewrite getUserMedia_declared by done. by rewrite recording_recording.
  - unfold getVideoConstraints.
    destruct (isChromeOrChromium p), (audio opts) as [[]|]; reflexivity.
  - unfold getVideoConstraints.
    destruct (isChromeOrChromium p), (audio opts) as [[]|]; reflexivity.
Qed.

(** X12: where [navigator] or [navigator.mediaDevices] is missing, both
    [startMedia] and [startDisplayMedia] throw a [TypeError] and no capture
    primitive is called. *)
Theorem acquisition_without_mediaDevices (p : Platform)
    (arg : option MediaOpts) (w : World) :
  declared_windowb p = false →
  (startMedia p arg w).1 = Abrupt TypeError
  ∧ (startDisplayMedia p w).1 = Abrupt TypeError
  ∧ existsb is_Requested (events_of (startMedia p arg) w) = false
  ∧ existsb is_Requested (events_of (startDisplayMedia p) w) = false.
Proof.
  intros Hdecl.
  assert (hasGetDisplayMedia p = false) as Hhas.
  { apply not_true_is_false. intros Hhas%hasGetDisplayMedia_declared.
    apply declared_windowb_spec in Hhas. congruence. }
  assert (∃ es, startMedia p arg w = (Abrupt TypeError, recording es w)
                ∧ existsb is_Requested es = false) as (es & Hrun & Hes).
  { unfold startMedia, call, mbind, M_bind, mret, M_ret, emit.
    destruct (truthy_opt _); simpl; rewrite getUserMedia_undeclared by done.
    - by eexists.
    - exists []. by rewrite recording_nil. }
  split; [by rewrite Hrun|]. split.
  { unfold startDisplayMedia, call, mbind, M_bind, mret, M_ret, emit. simpl.
    rewrite Hhas. by rewrite getUserMedia_undeclared. }
  split.
  - by rewrite (events_of_recording _ _ _ _ Hrun).
  - rewrite startDisplayMedia_events, Hdecl. reflexivity.
Qed.

(** X13: the acquisition entry points leave [_hasTransceiverFunctionality] as
    it is, set or not, and construct no peer connection. *)
Theorem acquisition_keeps_flag (p : Platform) (arg : option MediaOpts)
    (w : World) :
  _hasTransceiverFunctionality (startMedia p arg w).2
  = _hasTransceiverFunctionality w
  ∧ _hasTransceiverFunctionality (startDisplayMedia p w).2
    = _hasTransceiverFunctionality w
  ∧ probes (startMedia p arg w).2 = probes w
  ∧ probes (startDisplayMedia p w).2 = probes w.
Proof.
  destruct (startMedia_quiet p arg w) as (r1 & es1 & -> & Hes1).
  destruct (startDisplayMedia_quiet p w) as (r2 & es2 & -> & Hes2).
  simpl. rewrite !probes_recording, Hes1, Hes2. simpl.
  repeat split; lia.
Qed.

(** X14: a call of [checkHasTransceiverFunctionality] that finds the variable
    [null] builds one peer connection where the constructor returns one and
    none where it is missing or throws, and answers [true] exactly when the
    construction succeeds and the object's [getTransceivers] property reads as
    a truthy value. *)
Theorem checkHasTransceiverFunctionality_true (p : Platform) (w : World) :
  _hasTransceiverFunctionality w = None →
  ((checkHasTransceiverFunctionality p w).1 = Normal (Some true)
   ↔ ∃ pc f, RTCPeerConnection p = Normal pc
             ∧ getTransceivers pc = Normal f ∧ truthy f = true)
  ∧ probes (checkHasTransceiverFunctionality p w).2
    = (probes w + (if RTCPeerConnection p is Normal _ then 1 else 0))%nat
  ∧ events_of (checkHasTransceiverFunctionality p) w
    = (if RTCPeerConnection p is Normal _ then [Constructed] else []).
Proof.
  intros Hw.
  destruct (checkHasTransceiverFunctionality_first p w Hw) as (b & Hrun & Hb).
  split; [|split].
  - rewrite Hrun. simpl. split.
    + intros Htrue. assert (b = true) as -> by congruence.
      destruct (RTCPeerConnection p) as [pc|]; [|done].
      destruct (getTransceivers pc) as [f|] eqn:Hf; [|done].
      by exists pc, f.
    + intros (pc & f & Hpc & Hf & Htruthy).
      rewrite Hpc, Hf, Htruthy in Hb. by rewrite Hb.
  - rewrite Hrun. unfold probes, built, constructible; simpl.
    rewrite filter_app, length_app.
    destruct (RTCPeerConnection p); simpl; lia.
  - unfold events_of. rewrite Hrun. simpl. rewrite drop_app_length.
    unfold built, constructible. by destruct (RTCPeerConnection p).
Qed.

(** One call of a session, when the variable is not set yet. *)
Lemma perform_unset (p : Platform) (op : Op) (w : World) :
  _hasTransceiverFunctionality w = None →
  if is_check (p, op)
  then is_Some (_hasTransceiverFunctionality (perform p op w).2)
       ∧ probes (perform p op w).2
         = (probes w + (if constructible p then 1 else 0))%nat
  else _hasTransceiverFunctionality (perform p op w).2 = None
       ∧ probes (perform p op w).2 = probes w.
Proof.
  intros Hw. destruct op; unfold is_check, perform, mbind, M_bind; simpl.
  - destruct (startDisplayMedia_quiet p w) as (r & es & -> & Hes).
    destruct r; simpl; rewrite probes_recording, Hes; simpl; (split; [done|lia]).
  - destruct (startMedia_quiet p arg w) as (r & es & -> & Hes).
    destruct r; simpl; rewrite probes_recording, Hes; simpl; (split; [done|lia]).
  - destruct (checkHasTransceiverFunctionality_first p w Hw) as (b & -> & _).
    simpl. split; [by eexists|].
    unfold probes, built; simpl. rewrite filter_app, length_app.
    destruct (constructible p); simpl; lia.
Qed.

(** X15: in a session that starts with the variable unset, only the first
    call of the probe can build a peer connection: it builds one where the
    constructor returns one, and none where it is missing or throws; no later
    call builds any, however many calls follow and on whatever platform.  The
    variable ends up set exactly when the probe was called. *)
Theorem run_probes_once (calls : list (Platform * Op)) (w : World) :
  _hasTransceiverFunctionality w = None →
  probes (run calls w).2
  = (probes w
     + match find is_check calls with
       | Some (p, _) => if constructible p then 1 else 0
       | None => 0
       end)%nat
  ∧ (_hasTransceiverFunctionality (run calls w).2 = None
     ↔ find is_check calls = None).
Proof.
  revert w. induction calls as [|[p op] rest IH]; intros w Hw; simpl.
  - split; [lia|done].
  - pose proof (perform_unset p op w Hw) as Hstep.
    destruct (is_check (p, op)) eqn:Hcheck; simpl.
    + destruct Hstep as [[b Hb] Hprobes].
      destruct (perform p op w) as [r w1]; simpl in *.
      destruct (run_cached rest w1 b Hb) as (Hb2 & Hprobes2 & _).
      destruct (run rest w1) as [rs w2]; simpl in *.
      split; [congruence|]. rewrite Hb2. done.
    + destruct Hstep as [Hw1 Hprobes].
      destruct (perform p op w) as [r w1]; simpl in *.
      destruct (IH w1 Hw1) as [Hprobes2 Hflag2].
      destruct (run rest w1) as [rs w2]; simpl in *.
      split; [by rewrite Hprobes2, Hprobes|done].
Qed.

(** X16: the answer of [checkAllTracksHaveEnded] for tracks put together is
    the conjunction of the answers for the parts, and it does not depend on
    the order of the tracks. *)
Theorem checkAllTracksHaveEnded_app (a b : list MediaStreamTrack) :
  checkAllTracksHaveEnded {| getTracks := a ++ b |}
  = checkAllTracksHaveEnded {| getTracks := a |}
    && checkAllTracksHaveEnded {| getTracks := b |}
  ∧ (∀ c, a ≡ₚ c →
          checkAllTracksHaveEnded {| getTracks := a |}
          = checkAllTracksHaveEnded {| getTracks := c |}).
Proof.
  unfold checkAllTracksHaveEnded; simpl. split.
  - rewrite !allTracksHaveEnded_loop. simpl. apply forallb_app.
  - intros c Hperm. rewrite !allTracksHaveEnded_loop. simpl.
    induction Hperm as [|t l l' _ IH|t u l|l l' l'' _ IH1 _ IH2]; simpl.
    + done.
    + by rewrite IH.
    + by destruct (String.eqb (readyState t) _), (String.eqb (readyState u) _).
    + congruence.
Qed.

End More.

(** ** The page properties at work on the example pages *)

Lemma createAudioMediaElement_idempotent_witness :
  ∃ e pg1,
    createAudioMediaElement blank_page = (Normal e, pg1)
    ∧ createAudioMediaElement pg1 = (Normal e, pg1).
Proof.
  apply (createAudioMediaElement_idempotent blank_page);
    [apply page_okb_spec; reflexivity | reflexivity].
Defined.

Lemma createAudioMediaElement_marked_witness :
  ∃ e pg1 el,
    createAudioMediaElement page_with_player = (Normal e, pg1)
    ∧ (e ∈ document_order pg1)
    ∧ nodes pg1 !! e = Some el
    ∧ tagName el = "audio"
    ∧ (PC_AUDIO_EL_CLASS ∈ classList el)
    ∧ find (matches_selector pg1 "audio" PC_AUDIO_EL_CLASS) (document_order pg1)
      = Some e
    ∧ page_ok pg1
    ∧ console pg1 = console page_with_player.
Proof.
  apply (createAudioMediaElement_marked page_with_player);
    [apply page_okb_spec; reflexivity | reflexivity].
Defined.

Lemma createAudioMediaElement_appends_witness :
  ∃ e pg1,
    createAudioMediaElement blank_page = (Normal e, pg1)
    ∧ nodes blank_page !! e = None
    ∧ (e ∉ document_order blank_page)
    ∧ nodes pg1 !! e = Some hidden_audio
    ∧ (∀ id, id ≠ e → nodes pg1 !! id = nodes blank_page !! id)
    ∧ upto_body pg1 = (upto_body blank_page ++ [e])%list
    ∧ past_body pg1 = past_body blank_page.
Proof.
  apply (createAudioMediaElement_appends blank_page);
    [apply page_okb_spec; reflexivity | reflexivity | reflexivity].
Defined.

Lemma createAudioMediaElement_without_body_witness :
  ∃ pg1,
    createAudioMediaElement page_without_body = (Abrupt TypeError, pg1)
    ∧ document_order pg1 = document_order page_without_body
    ∧ inbound_audio pg1 = None
    ∧ console pg1 = console page_without_body.
Proof.
  apply (createAudioMediaElement_without_body page_without_body);
    [apply page_okb_spec; reflexivity | reflexivity | reflexivity].
Defined.

(** Attaching to the element that plays already: a warning. *)
Lemma attachAudioMedia_binds_witness :
  console (attachAudioMedia "sdk" {| getTracks := [] |} (Some 1%nat)
             page_with_player).2
  = [warning "sdk"].
Proof.
  destruct (attachAudioMedia_binds "sdk" {| getTracks := [] |} 1%nat
              {| tagName := "audio"; classList := [PC_AUDIO_EL_CLASS];
                 style := "visibility: hidden"; autoplay := true;
                 srcObject := Some {| getTracks := [live_track] |} |}
              page_with_player eq_refl)
    as (_ & _ & _ & _ & Hconsole).
  exact Hconsole.
Defined.

Lemma attachAudioMedia_last_wins_witness :
  let first :=
    attachAudioMedia "a" {| getTracks := [live_track] |} (Some 0%nat)
      page_with_player in
  let second :=
    attachAudioMedia "b" {| getTracks := [ended_track] |} (Some 0%nat) first.2 in
  (nodes second.2 !! 0%nat) ≫= srcObject = Some {| getTracks := [ended_track] |}
  ∧ console first.2 = []
  ∧ console second.2 = [warning "b"].
Proof.
  cbv zeta.
  destruct (attachAudioMedia_last_wins "a" "b"
              {| getTracks := [live_track] |} {| getTracks := [ended_track] |}
              0%nat
              {| tagName := "div"; classList := []; style := "";
                 autoplay := false; srcObject := None |}
              page_with_player eq_refl)
    as (_ & Hnode & Hconsole).
  cbv zeta in Hnode, Hconsole. rewrite Hnode, Hconsole.
  split; [reflexivity|]. split; reflexivity.
Defined.

Lemma attachAudioMedia_omitted_twice_witness :
  let first := attachAudioMedia "a" {| getTracks := [live_track] |} None
                 blank_page in
  let second := attachAudioMedia "b" {| getTracks := [ended_track] |} None
                  first.2 in
  document_order second.2 = document_order first.2
  ∧ (length (document_order second.2) ≤ 1)%nat.
Proof.
  cbv zeta.
  destruct (attachAudioMedia_omitted_twice "a" "b"
              {| getTracks := [live_track] |} {| getTracks := [ended_track] |}
              blank_page (page_okb_spec blank_page eq_refl) eq_refl)
    as (_ & _ & Horder & Hlength & _).
  split; [exact Horder | exact Hlength].
Defined.

Lemma run_on_page_single_element_witness :
  let ops := [AttachAudioMedia "a" {| getTracks := [live_track] |} None;
              CreateAudioMediaElement;
              AttachAudioMedia "b" {| getTracks := [] |} None;
              CreateAudioMediaElement] in
  (length (document_order (run_on_page ops blank_page).2) ≤ 1)%nat
  ∧ (run_on_page ops blank_page).1 !! 1%nat
    = (run_on_page ops blank_page).1 !! 3%nat.
Proof.
  cbv zeta.
  destruct (run_on_page_single_element
              [AttachAudioMedia "a" {| getTracks := [live_track] |} None;
               CreateAudioMediaElement;
               AttachAudioMedia "b" {| getTracks := [] |} None;
               CreateAudioMediaElement]
              blank_page (page_okb_spec blank_page eq_refl) eq_refl)
    as (_ & Hlength & _ & Hcreates & _).
  split; [exact Hlength|].
  cbv zeta in Hcreates.
  rewrite (Hcreates 1%nat eq_refl), (Hcreates 3%nat eq_refl). reflexivity.
Defined.

(** [startMedia({video: true})]: camera only. *)
Lemma startMedia_with_video_witness :
  declared_window gecko
  ∧ get_prop (getVideoConstraints gecko true) "audio" = Bool false
  ∧ startMedia gecko (Some {| video := Some true; audio := None |}) initial
    = (Normal {| primitive := GetUserMedia;
                 requested := getVideoConstraints gecko true |},
       recording [Invoked "getVideoConstraints";
                  Requested GetUserMedia (getVideoConstraints gecko true)]
         initial).
Proof.
  split; [exact declared_window_gecko|]. split; [reflexivity|].
  apply (proj1 (startMedia_with_video gecko initial
                  {| video := Some true; audio := None |}
                  declared_window_gecko eq_refl)).
Defined.

Lemma acquisition_without_mediaDevices_witness :
  declared_windowb headless = false
  ∧ (startMedia headless None initial).1 = Abrupt TypeError
  ∧ (startDisplayMedia headless initial).1 = Abrupt TypeError.
Proof.
  split; [reflexivity|].
  destruct (acquisition_without_mediaDevices headless None initial eq_refl)
    as (Hmedia & Hdisplay & _).
  split; [exact Hmedia | exact Hdisplay].
Defined.

Lemma checkHasTransceiverFunctionality_true_witness :
  (checkHasTransceiverFunctionality chromium_with_picker initial).1
  = Normal (Some true)
  ∧ probes (checkHasTransceiverFunctionality chromium_with_picker initial).2
    = 1%nat
  ∧ probes (checkHasTransceiverFunctionality gecko initial).2 = 0%nat.
Proof.
  destruct (checkHasTransceiverFunctionality_true chromium_with_picker initial
              eq_refl) as (Htrue & Hprobes & _).
  destruct (checkHasTransceiverFunctionality_true gecko initial eq_refl)
    as (_ & Hnone & _).
  split; [|split; [exact Hprobes | exact Hnone]].
  apply Htrue. eexists _, _. split; [reflexivity|]. split; reflexivity.
Defined.

(** Probes on three platforms between two acquisitions: the first probe is
    the only one that can build a peer connection. *)
Lemma run_probes_once_witness :
  probes (run [(gecko, StartMedia None);
               (chromium_with_picker, CheckHasTransceiverFunctionality);
               (headless, CheckHasTransceiverFunctionality);
               (chromium_legacy, StartDisplayMedia);
               (chromium_legacy, CheckHasTransceiverFunctionality)]
            initial).2
  = 1%nat
  ∧ probes (run [(headless, CheckHasTransceiverFunctionality);
                 (chromium_with_picker, CheckHasTransceiverFunctionality)]
              initial).2
    = 0%nat.
Proof.
  split.
  - apply (proj1 (run_probes_once
                    [(gecko, StartMedia None);
                     (chromium_with_picker, CheckHasTransceiverFunctionality);
                     (headless, CheckHasTransceiverFunctionality);
                     (chromium_legacy, StartDisplayMedia);
                     (chromium_legacy, CheckHasTransceiverFunctionality)]
                    initial eq_refl)).
  - apply (proj1 (run_probes_once
                    [(headless, CheckHasTransceiverFunctionality);
                     (chromium_with_picker, CheckHasTransceiverFunctionality)]
                    initial eq_refl)).
Defined.

Lemma checkAllTracksHaveEnded_app_witness :
  checkAllTracksHaveEnded {| getTracks := [ended_track; live_track] |}
  = checkAllTracksHaveEnded {| getTracks := [live_track; ended_track] |}.
Proof.
  apply (proj2 (checkAllTracksHaveEnded_app [ended_track; live_track] [])).
  apply perm_swap.
Defined.
